(** * Matching users on common attributes

    A verification development for [match_users.ipynb]: the compatibility
    scorer [calculate_compatibility] and the match finder [find_matches].

    Conventions of the embedding.
    - A pandas row (a [Series] taken from the users frame) is the record
      [row].  The columns [interests], [languages], [preferredActivities],
      [preferredCountries] and [dislikedUserIds] hold Python list literals;
      a cell is represented by the list that [ast.literal_eval] returns on
      it, in the literal's order and with its repetitions.
    - A [DataFrame] is the list of its rows in positional order.  The code
      only uses boolean masks, [iloc] and [iterrows] (whose index it
      ignores), so index labels play no part.
    - Python integers are unbounded: scores and user ids are in [Z].
    - [set(...)] builds a finite set ([gset string]) from a list.
    - [find_matches] is given twice: on values, where the frame is a list
      of rows and the outcome is a list or a raised exception, and in
      [Store] on a heap of objects, where [append] and [sort] update the
      list [scores] in place.  [StoreFacts.find_matches_run] relates the
      two. *)

From stdpp Require Import gmap strings list sorting.
From Stdlib Require Import ZArith Lia.

Local Open Scope Z_scope.

(** ** Data model *)

Record row := Row {
  userId : Z;
  userName : string;
  userType : string;
  interests : list string;
  languages : list string;
  travelStyle : string;
  preferredActivities : list string;
  preferredCountries : list string;
  dislikedUserIds : list Z
}.

(** One entry of the list [find_matches] returns:
    [(userName, userId, score)]. *)
Definition match_tuple : Type := string * Z * Z.

Definition tuple_name (t : match_tuple) : string := t.1.1.
Definition tuple_id (t : match_tuple) : Z := t.1.2.
(** [x[2]], the sort key of [find_matches]. *)
Definition tuple_score (t : match_tuple) : Z := t.2.

(** ** The compatibility scorer *)

(** [len(s1.intersection(s2))] for [s1 = set(l1)], [s2 = set(l2)]. *)
Definition len_intersection (l1 l2 : list string) : Z :=
  let s1 : gset string := list_to_set l1 in
  let s2 : gset string := list_to_set l2 in
  Z.of_nat (size (s1 ∩ s2)).

(** The body of [calculate_compatibility], statement by statement: the
    accumulator [score] starts at 0 and is updated five times. *)
Definition calculate_compatibility (user1 user2 : row) : Z :=
  let score := 0 in
  let score := score + len_intersection (interests user1) (interests user2) * 10 in
  let score := score + len_intersection (languages user1) (languages user2) * 30 in
  let score :=
    if bool_decide (travelStyle user1 = travelStyle user2)
    then score + 25 else score in
  let score :=
    score + len_intersection (preferredActivities user1) (preferredActivities user2) * 10 in
  let score :=
    score + len_intersection (preferredCountries user1) (preferredCountries user2) * 20 in
  score.

(** *** Vocabulary of the specification *)

(** The set a list-valued field denotes. *)
Definition field_set (l : list string) : gset string := list_to_set l.

(** Number of shared elements: the size of the intersection of the two
    field sets. *)
Definition shared (l1 l2 : list string) : nat :=
  size (field_set l1 ∩ field_set l2).

(** The +25 bonus for equal travel styles. *)
Definition style_bonus (user1 user2 : row) : Z :=
  if bool_decide (travelStyle user1 = travelStyle user2) then 25 else 0.

(** The bound of the specification, from the sizes of one user's sets. *)
Definition score_bound (u : row) : Z :=
  10 * Z.of_nat (size (field_set (interests u)))
  + 30 * Z.of_nat (size (field_set (languages u)))
  + 25
  + 10 * Z.of_nat (size (field_set (preferredActivities u)))
  + 20 * Z.of_nat (size (field_set (preferredCountries u))).

(** Replacing some of the four list fields by their duplicate-free
    versions; a flag selects each field. *)
Definition dedup_if (b : bool) (l : list string) : list string :=
  if b then remove_dups l else l.

Definition dedup_fields (bi bl ba bc : bool) (u : row) : row :=
  {| userId := userId u;
     userName := userName u;
     userType := userType u;
     interests := dedup_if bi (interests u);
     languages := dedup_if bl (languages u);
     travelStyle := travelStyle u;
     preferredActivities := dedup_if ba (preferredActivities u);
     preferredCountries := dedup_if bc (preferredCountries u);
     dislikedUserIds := dislikedUserIds u |}.

(** ** [list.sort(key=..., reverse=True)]

    Python's [list.sort] is a stable sort.  With [reverse=True] CPython
    keeps it stable by reversing the list, running the stable ascending
    sort, and reversing the outcome; [list_sort_reverse] follows that
    recipe.  The ascending sort is modelled by a stable insertion sort
    (the output of a stable sort is determined by its input). *)

Section list_sort.
Context {A : Type} (key : A → Z).

(** [x] is put in front of the first element whose key is not below
    its own: it stays ahead of the equal keys it preceded. *)
Fixpoint insert_sorted (x : A) (l : list A) : list A :=
  match l with
  | [] => [x]
  | y :: l' =>
      if bool_decide (key x ≤ key y) then x :: l
      else y :: insert_sorted x l'
  end.

Fixpoint stable_sort (l : list A) : list A :=
  match l with
  | [] => []
  | x :: l' => insert_sorted x (stable_sort l')
  end.

Definition list_sort_reverse (l : list A) : list A :=
  reverse (stable_sort (reverse l)).

(** Ascending and descending order of the keys. *)
Definition key_le (a b : A) : Prop := key a ≤ key b.
Definition key_ge (a b : A) : Prop := key b ≤ key a.

End list_sort.

(** ** Exceptions *)

(** A raised Python exception: its class name and its message. *)
Record exn := Exn { exn_class : string; exn_message : string }.

Inductive result (A : Type) : Type :=
  | Ok (a : A)
  | Raise (e : exn).
Arguments Ok {A} a.
Arguments Raise {A} e.

Local Open Scope string_scope.

(** What pandas raises for [.iloc[0]] on a selection without rows. *)
Definition IndexError_out_of_bounds : exn :=
  Exn "IndexError" "single positional indexer is out-of-bounds".

(** ** The match finder *)

(** [frame.iloc[0]]. *)
Definition iloc0 (frame : list row) : result row :=
  match frame with
  | [] => Raise IndexError_out_of_bounds
  | r :: _ => Ok r
  end.

(** ['Guide' if current_user['userType'] == 'Traveler' else 'Traveler']. *)
Definition target_user_type (current_user : row) : string :=
  if bool_decide (userType current_user = "Traveler") then "Guide" else "Traveler".

Local Close Scope string_scope.

(** The tuple appended for a scored candidate. *)
Definition match_of (current_user potential_match : row) : match_tuple :=
  (userName potential_match, userId potential_match,
   calculate_compatibility current_user potential_match).

(** The [for ... in potential_matches.iterrows()] loop, threading the
    list [scores]: a row with the requested id is skipped ([continue]),
    any other row appends its tuple at the end. *)
Fixpoint score_rows (user_id : Z) (current_user : row)
    (potential_matches : list row) (scores : list match_tuple)
    : list match_tuple :=
  match potential_matches with
  | [] => scores
  | potential_match :: rest =>
      if bool_decide (userId potential_match = user_id)
      then score_rows user_id current_user rest scores
      else score_rows user_id current_user rest
             (scores ++ [match_of current_user potential_match])
  end.

(** [find_matches] on values: the frame is the list of its rows. *)
Definition find_matches (user_id : Z) (users_df : list row)
    : result (list match_tuple) :=
  match iloc0 (filter (λ r, userId r = user_id) users_df) with
  | Raise e => Raise e
  | Ok current_user =>
      let target := target_user_type current_user in
      let potential_matches := filter (λ r, userType r = target) users_df in
      let disliked_ids := dislikedUserIds current_user in
      let potential_matches :=
        filter (λ r, userId r ∉ disliked_ids) potential_matches in
      let scores := score_rows user_id current_user potential_matches [] in
      Ok (list_sort_reverse tuple_score scores)
  end.

(** *** Vocabulary of the specification *)

(** The record of the requested user: the first row with that id. *)
Definition current_user_of (user_id : Z) (users_df : list row) : option row :=
  head (filter (λ r, userId r = user_id) users_df).

(** The rows of the collection, in its order, that have the role [role],
    are not disliked by the current user and are not the requested user. *)
Definition candidates (role : string) (user_id : Z) (current_user : row)
    (users_df : list row) : list row :=
  filter (λ r, userType r = role
               ∧ (userId r ∉ dislikedUserIds current_user)
               ∧ userId r ≠ user_id) users_df.

(** A failure that reports a missing user: not the [IndexError] of a
    positional access, and a message that says "not found". *)
Definition mentions (needle text : string) : bool :=
  match String.index 0 needle text with Some _ => true | None => false end.

Definition user_not_found_failure {A} (r : result A) : Prop :=
  ∃ e, r = Raise e
       ∧ exn_class e ≠ "IndexError"%string
       ∧ mentions "not found"%string (exn_message e) = true.

(** ** The match finder on a store of objects

    To speak about mutation, the objects the function touches live in a
    heap: the frame passed in, the frames the function derives from it,
    and the list [scores], which [append] and [sort] update in place. *)

Module Store.

Definition loc : Type := positive.

Inductive obj : Type :=
  | DataFrame (rows : list row)
  | PyList (items : list match_tuple).

Abbreviation heap := (gmap loc obj).

(** A computation reads and updates the heap and returns or raises;
    the heap is kept in both cases. *)
Definition M (A : Type) : Type := heap → result A * heap.

Definition ret {A} (a : A) : M A := λ h, (Ok a, h).

Definition bind {A B} (m : M A) (k : A → M B) : M B :=
  λ h, match m h with
       | (Ok a, h') => k a h'
       | (Raise e, h') => (Raise e, h')
       end.

Definition lift {A} (r : result A) : M A := λ h, (r, h).

(** Raised by the accessors below when a reference does not hold an
    object of the kind the operation needs. *)
Definition TypeError (msg : string) : exn := Exn "TypeError" msg.

(** A new object, at a location the heap does not use. *)
Definition new (o : obj) : M loc :=
  λ h, let l := fresh (dom h) in (Ok l, <[l := o]> h).

Definition rows_of (l : loc) : M (list row) :=
  λ h, match h !! l with
       | Some (DataFrame rows) => (Ok rows, h)
       | _ => (Raise (TypeError "not a DataFrame"), h)
       end.

(** [lst.append(t)]: in place. *)
Definition append (l : loc) (t : match_tuple) : M unit :=
  λ h, match h !! l with
       | Some (PyList items) => (Ok tt, <[l := PyList (items ++ [t])]> h)
       | _ => (Raise (TypeError "not a list"), h)
       end.

(** [lst.sort(key=lambda x: x[2], reverse=True)]: in place. *)
Definition sort_by_score_reverse (l : loc) : M unit :=
  λ h, match h !! l with
       | Some (PyList items) =>
           (Ok tt, <[l := PyList (list_sort_reverse tuple_score items)]> h)
       | _ => (Raise (TypeError "not a list"), h)
       end.

(** A [for] loop over a list; its body returns nothing. *)
Fixpoint for_each {A} (xs : list A) (body : A → M unit) : M unit :=
  match xs with
  | [] => ret tt
  | x :: xs' => bind (body x) (λ _, for_each xs' body)
  end.

Notation "'let*' x := m 'in' k" := (bind m (λ x, k))
  (at level 10, x name, m at level 100, k at level 200).
Notation "'run' m 'then' k" := (bind m (λ _, k))
  (at level 10, m at level 100, k at level 200).

(** [find_matches(user_id, users_df)], with [users_df] a reference to
    the caller's frame.  Each boolean-mask selection and [.copy()]
    makes a new frame, [scores = []] a new list; [continue] is the
    branch that does nothing; the result is the reference to [scores]. *)
Definition find_matches (user_id : Z) (users_df : loc) : M loc :=
  let* all_rows := rows_of users_df in
  let* selection := new (DataFrame (filter (λ r, userId r = user_id) all_rows)) in
  let* selected := rows_of selection in
  let* current_user := lift (iloc0 selected) in
  let target := target_user_type current_user in
  let* all_rows := rows_of users_df in
  let* masked := new (DataFrame (filter (λ r, userType r = target) all_rows)) in
  let* masked_rows := rows_of masked in
  let* potential_matches := new (DataFrame masked_rows) in
  let disliked_ids := dislikedUserIds current_user in
  let* pm_rows := rows_of potential_matches in
  let* potential_matches :=
    new (DataFrame (filter (λ r, userId r ∉ disliked_ids) pm_rows)) in
  let* scores := new (PyList []) in
  let* pm_rows := rows_of potential_matches in
  run for_each pm_rows (λ potential_match,
        if bool_decide (userId potential_match = user_id) then ret tt
        else append scores (match_of current_user potential_match)) then
  run sort_by_score_reverse scores then
  ret scores.

(** The list a call returns, read back from the final heap. *)
Definition returned_list (out : result loc * heap) : option (result (list match_tuple)) :=
  match out with
  | (Raise e, _) => Some (Raise e)
  | (Ok l, h) =>
      match h !! l with
      | Some (PyList items) => Some (Ok items)
      | _ => None
      end
  end.

End Store.

(** ** The notebook's query cell

    The last cell reads the users file into [users], sets [id], calls
    [find_matches(id, users)] and prints a header line and one line for
    each of [top_matches[:10]].  The frame read from the file and the id
    are the arguments here; the outcome is the list of lines printed, or
    the exception of [find_matches], raised before anything is printed. *)

From stdpp Require Import pretty.

Local Open Scope Z_scope.

Local Open Scope string_scope.

(** [f"Top matches for user {id}:"]. *)
Definition header_line (id : Z) : string :=
  "Top matches for user " +:+ pretty id +:+ ":".

(** [f"  - User: {name} (ID: {user_id}), Compatibility Score: {score}"]. *)
Definition match_line (t : match_tuple) : string :=
  "  - User: " +:+ tuple_name t +:+ " (ID: " +:+ pretty (tuple_id t)
  +:+ "), Compatibility Score: " +:+ pretty (tuple_score t).

Definition print_top_matches (id : Z) (users : list row)
    : result (list string) :=
  match find_matches id users with
  | Raise e => Raise e
  | Ok top_matches =>
      Ok (header_line id :: (match_line <$> take 10 top_matches))
  end.

Local Close Scope string_scope.

(** *** Further vocabulary *)

(** Two list fields without a common element. *)
Definition no_common (l1 l2 : list string) : Prop :=
  ∀ x, x ∈ l1 → x ∉ l2.

(** Two list fields with the same elements, whatever their order and
    repetitions. *)
Definition same_elements (l1 l2 : list string) : Prop :=
  ∀ x, x ∈ l1 ↔ x ∈ l2.

(** The same profile with another list of disliked ids. *)
Definition set_disliked (ids : list Z) (u : row) : row :=
  {| userId := userId u;
     userName := userName u;
     userType := userType u;
     interests := interests u;
     languages := languages u;
     travelStyle := travelStyle u;
     preferredActivities := preferredActivities u;
     preferredCountries := preferredCountries u;
     dislikedUserIds := ids |}.

(** The collection in which every row whose id is not [user_id] gets
    the disliked ids [ids r] instead of its own. *)
Definition redislike (user_id : Z) (ids : row → list Z)
    (users_df : list row) : list row :=
  (λ r, if bool_decide (userId r = user_id) then r
        else set_disliked (ids r) r) <$> users_df.

(** ** Sample data *)

Local Open Scope string_scope.

(** A traveller and a guide who share two interests, one language and
    the travel style, and also one preferred activity. *)
Definition nour : row :=
  {| userId := 1; userName := "Nour"; userType := "Traveler";
     interests := ["hiking"; "food"; "museums"];
     languages := ["Arabic"; "English"];
     travelStyle := "Budget";
     preferredActivities := ["Diving"; "Safari"];
     preferredCountries := ["Egypt"];
     dislikedUserIds := [] |}.

Definition omar : row :=
  {| userId := 2; userName := "Omar"; userType := "Guide";
     interests := ["food"; "hiking"; "music"];
     languages := ["English"; "French"];
     travelStyle := "Budget";
     preferredActivities := ["Diving"];
     preferredCountries := ["Jordan"];
     dislikedUserIds := [] |}.

(** The same guide without the common activity. *)
Definition omar_no_diving : row :=
  {| userId := 2; userName := "Omar"; userType := "Guide";
     interests := ["food"; "hiking"; "music"];
     languages := ["English"; "French"];
     travelStyle := "Budget";
     preferredActivities := ["Camping"];
     preferredCountries := ["Jordan"];
     dislikedUserIds := [] |}.

(** A small collection: two travellers, three guides (one of them
    disliked by the first traveller) and a user with a third role. *)
Definition laila : row :=
  Row 3 "Laila" "Guide" ["food"] ["French"] "Luxury" ["Safari"] ["Egypt"] [1].
Definition karim : row :=
  Row 4 "Karim" "Guide" ["hiking"; "food"; "museums"] ["Arabic"; "English"]
      "Budget" ["Diving"; "Safari"] ["Egypt"] [].
Definition salma : row :=
  Row 5 "Salma" "Traveler" ["music"] ["French"] "Luxury" [] ["Jordan"] [].
Definition hana : row :=
  Row 6 "Hana" "Admin" ["food"; "music"] ["English"] "Budget" ["Diving"] [] [2].
Definition yasmin : row :=
  Row 7 "Yasmin" "Guide" ["museums"] ["Spanish"] "Comfort" ["Safari"] ["Egypt"] [].

Definition nour_picky : row :=
  Row 1 "Nour" "Traveler" ["hiking"; "food"; "museums"] ["Arabic"; "English"]
      "Budget" ["Diving"; "Safari"] ["Egypt"] [4].

Definition users : list row :=
  [nour_picky; omar; laila; karim; salma; hana; yasmin].

Local Close Scope string_scope.


Local Open Scope string_scope.

(** The first traveller with the list fields reordered and repeated,
    with fewer entries, and a profile without any entry. *)
Definition nour_shuffled : row :=
  Row 1 "Nour" "Traveler" ["museums"; "food"; "hiking"; "food"]
      ["English"; "Arabic"] "Budget" ["Safari"; "Diving"; "Diving"]
      ["Egypt"; "Egypt"] [].
Definition nour_before : row :=
  Row 1 "Nour" "Traveler" ["hiking"] ["English"] "Budget" [] ["Egypt"] [].
Definition blank : row :=
  Row 8 "Blank" "Traveler" [] [] "Budget" [] [] [].

Local Close Scope string_scope.
(** ** Facts about the scorer *)

Lemma len_intersection_shared l1 l2 :
  len_intersection l1 l2 = Z.of_nat (shared l1 l2).
Proof. reflexivity. Qed.

Lemma shared_comm l1 l2 : shared l1 l2 = shared l2 l1.
Proof. unfold shared. by rewrite (comm_L (∩)). Qed.

Lemma shared_le_l l1 l2 : (shared l1 l2 ≤ size (field_set l1))%nat.
Proof. unfold shared. apply subseteq_size, intersection_subseteq_l. Qed.

Lemma shared_le_r l1 l2 : (shared l1 l2 ≤ size (field_set l2))%nat.
Proof. rewrite shared_comm. apply shared_le_l. Qed.

Lemma style_bonus_comm u1 u2 : style_bonus u1 u2 = style_bonus u2 u1.
Proof.
  unfold style_bonus.
  destruct (decide (travelStyle u1 = travelStyle u2)) as [e|n].
  - rewrite !bool_decide_eq_true_2; congruence.
  - rewrite !bool_decide_eq_false_2; congruence.
Qed.

Lemma style_bonus_range u1 u2 : 0 ≤ style_bonus u1 u2 ≤ 25.
Proof. unfold style_bonus. case_bool_decide; lia. Qed.

Lemma field_set_remove_dups l : field_set (remove_dups l) = field_set l.
Proof.
  unfold field_set. apply set_eq. intros x.
  rewrite !elem_of_list_to_set. apply elem_of_remove_dups.
Qed.

Lemma shared_dedup_if b1 b2 l1 l2 :
  shared (dedup_if b1 l1) (dedup_if b2 l2) = shared l1 l2.
Proof.
  unfold shared. destruct b1, b2; simpl; by rewrite ?field_set_remove_dups.
Qed.

(** The five updates of the accumulator, summed up. *)
Lemma score_sum (user1 user2 : row) :
  calculate_compatibility user1 user2 =
    10 * Z.of_nat (shared (interests user1) (interests user2))
    + 30 * Z.of_nat (shared (languages user1) (languages user2))
    + style_bonus user1 user2
    + 10 * Z.of_nat (shared (preferredActivities user1) (preferredActivities user2))
    + 20 * Z.of_nat (shared (preferredCountries user1) (preferredCountries user2)).
Proof.
  unfold calculate_compatibility, style_bonus.
  rewrite !len_intersection_shared. cbv zeta. case_bool_decide; lia.
Qed.

(** "Shared" read on the lists themselves: the number of distinct
    elements of the first list that occur in the second. *)
Lemma shared_as_list l1 l2 :
  shared l1 l2 = length (remove_dups (filter (λ x, x ∈ l2) l1)).
Proof.
  unfold shared, field_set.
  rewrite <- (size_list_to_set (C := gset string) (remove_dups _))
    by apply NoDup_remove_dups.
  f_equal. apply set_eq. intros x.
  rewrite elem_of_intersection, !elem_of_list_to_set,
    elem_of_remove_dups, list_elem_of_filter.
  tauto.
Qed.

(** C1: the score is 10 per shared interest, 30 per shared language, 25
    for equal travel styles (else 0), 10 per shared preferred activity
    and 20 per shared preferred country, where each "shared" count is the
    size of the intersection of the two users' sets. *)
Theorem calculate_compatibility_formula (user1 user2 : row) :
  calculate_compatibility user1 user2 =
    10 * Z.of_nat (size (field_set (interests user1) ∩ field_set (interests user2)))
    + 30 * Z.of_nat (size (field_set (languages user1) ∩ field_set (languages user2)))
    + (if bool_decide (travelStyle user1 = travelStyle user2) then 25 else 0)
    + 10 * Z.of_nat (size (field_set (preferredActivities user1)
                           ∩ field_set (preferredActivities user2)))
    + 20 * Z.of_nat (size (field_set (preferredCountries user1)
                           ∩ field_set (preferredCountries user2))).
Proof. apply score_sum. Qed.

(** C5: the score does not depend on the order of the two users. *)
Theorem calculate_compatibility_symmetric (a b : row) :
  calculate_compatibility a b = calculate_compatibility b a.
Proof.
  rewrite !score_sum.
  rewrite (shared_comm (interests a)), (shared_comm (languages a)),
    (shared_comm (preferredActivities a)), (shared_comm (preferredCountries a)).
  by rewrite (style_bonus_comm a b).
Qed.

(** C6: the score is non-negative and at most
    10*|interests| + 30*|languages| + 25 + 10*|preferredActivities|
    + 20*|preferredCountries|, with the set sizes taken from the first
    user, and likewise with the sizes taken from the second user. *)
Theorem calculate_compatibility_bounds (user1 user2 : row) :
  0 ≤ calculate_compatibility user1 user2
  ∧ calculate_compatibility user1 user2 ≤ score_bound user1
  ∧ calculate_compatibility user1 user2 ≤ score_bound user2.
Proof.
  rewrite score_sum. unfold score_bound.
  pose proof (shared_le_l (interests user1) (interests user2)).
  pose proof (shared_le_l (languages user1) (languages user2)).
  pose proof (shared_le_l (preferredActivities user1) (preferredActivities user2)).
  pose proof (shared_le_l (preferredCountries user1) (preferredCountries user2)).
  pose proof (shared_le_r (interests user1) (interests user2)).
  pose proof (shared_le_r (languages user1) (languages user2)).
  pose proof (shared_le_r (preferredActivities user1) (preferredActivities user2)).
  pose proof (shared_le_r (preferredCountries user1) (preferredCountries user2)).
  pose proof (style_bonus_range user1 user2).
  lia.
Qed.

(** C10: duplicates in the list-valued fields do not change the score:
    whichever of the four list fields of either user are replaced by
    their duplicate-free versions, the score is the same. *)
Theorem calculate_compatibility_dedup
    (i1 l1 a1 c1 i2 l2 a2 c2 : bool) (user1 user2 : row) :
  calculate_compatibility (dedup_fields i1 l1 a1 c1 user1)
                          (dedup_fields i2 l2 a2 c2 user2)
  = calculate_compatibility user1 user2.
Proof.
  rewrite !score_sum. unfold style_bonus. simpl.
  by rewrite !shared_dedup_if.
Qed.

(** C7, as stated, fails: [nour] and [omar] share exactly two interests
    and exactly one language and have the same travel style, yet their
    score is 85, because the shared preferred activity adds 10. *)
Lemma example_75_fails_with_shared_activity :
  shared (interests nour) (interests omar) = 2%nat
  ∧ shared (languages nour) (languages omar) = 1%nat
  ∧ travelStyle nour = travelStyle omar
  ∧ calculate_compatibility nour omar = 85
  ∧ calculate_compatibility nour omar ≠ 75.
Proof. vm_compute. repeat split; congruence. Qed.

(** C7, amended: two users who share exactly two interests and exactly
    one language, have equal travel styles, and share no preferred
    activity and no preferred country, score 20 + 30 + 25 = 75. *)
Theorem example_score_75 (user1 user2 : row) :
  shared (interests user1) (interests user2) = 2%nat →
  shared (languages user1) (languages user2) = 1%nat →
  travelStyle user1 = travelStyle user2 →
  shared (preferredActivities user1) (preferredActivities user2) = 0%nat →
  shared (preferredCountries user1) (preferredCountries user2) = 0%nat →
  calculate_compatibility user1 user2 = 20 + 30 + 25.
Proof.
  intros Hi Hl Hs Ha Hc. rewrite score_sum, Hi, Hl, Ha, Hc.
  unfold style_bonus. rewrite bool_decide_eq_true_2 by done. reflexivity.
Qed.

Lemma example_score_75_witness :
  calculate_compatibility nour omar_no_diving = 20 + 30 + 25.
Proof.
  apply (example_score_75 nour omar_no_diving); vm_compute; reflexivity.
Defined.

(** ** Facts about the sort *)

Section list_sort_facts.
Context {A : Type} (key : A → Z).

Lemma key_ge_trans : Transitive (key_ge key).
Proof. unfold key_ge. intros a b c ??. lia. Qed.

Lemma insert_sorted_Permutation x l : insert_sorted key x l ≡ₚ x :: l.
Proof.
  induction l as [|y l IH]; simpl; [done|].
  case_bool_decide; [done|]. rewrite IH. apply Permutation_swap.
Qed.

Lemma stable_sort_Permutation l : stable_sort key l ≡ₚ l.
Proof.
  induction l as [|x l IH]; simpl; [done|].
  by rewrite insert_sorted_Permutation, IH.
Qed.

Lemma insert_sorted_HdRel x y l :
  key y ≤ key x → HdRel (key_le key) y l → HdRel (key_le key) y (insert_sorted key x l).
Proof.
  intros Hyx Hhd. destruct Hhd as [|z l Hz]; simpl.
  - by constructor.
  - case_bool_decide; by constructor.
Qed.

Lemma insert_sorted_Sorted x l :
  Sorted (key_le key) l → Sorted (key_le key) (insert_sorted key x l).
Proof.
  induction 1 as [|y l Hl IH Hhd]; simpl.
  - by repeat constructor.
  - case_bool_decide as Hxy.
    + constructor; [by constructor | by constructor].
    + constructor; [done|]. apply insert_sorted_HdRel; [lia | done].
Qed.

Lemma stable_sort_Sorted l : Sorted (key_le key) (stable_sort key l).
Proof.
  induction l as [|x l IH]; simpl; [constructor|].
  by apply insert_sorted_Sorted.
Qed.

(** Insertion only moves [x] past elements with a strictly smaller
    key, so the elements of any one key keep their order. *)
Lemma insert_sorted_filter_key k x l :
  filter (λ a, key a = k) (insert_sorted key x l)
  = filter (λ a, key a = k) (x :: l).
Proof.
  induction l as [|y l IH]; simpl; [done|].
  case_bool_decide as Hxy; [done|].
  rewrite filter_cons, IH, !filter_cons.
  repeat case_decide; try done; lia.
Qed.

Lemma stable_sort_filter_key k l :
  filter (λ a, key a = k) (stable_sort key l) = filter (λ a, key a = k) l.
Proof.
  induction l as [|x l IH]; simpl; [done|].
  by rewrite insert_sorted_filter_key, !filter_cons, IH.
Qed.

Lemma list_sort_reverse_Permutation l : list_sort_reverse key l ≡ₚ l.
Proof.
  unfold list_sort_reverse.
  by rewrite reverse_Permutation, stable_sort_Permutation, reverse_Permutation.
Qed.

Lemma list_sort_reverse_descending l :
  StronglySorted (key_ge key) (list_sort_reverse key l).
Proof.
  apply (@Sorted_StronglySorted _ (key_ge key) key_ge_trans).
  unfold list_sort_reverse.
  apply (Sorted_reverse (key_le key)), stable_sort_Sorted.
Qed.

Lemma list_sort_reverse_stable k l :
  filter (λ a, key a = k) (list_sort_reverse key l) = filter (λ a, key a = k) l.
Proof.
  unfold list_sort_reverse.
  by rewrite filter_reverse, stable_sort_filter_key, filter_reverse,
    reverse_involutive.
Qed.

(** A descending list is determined by its sublists of equal keys, so
    any stable descending sort returns what [list_sort_reverse] does. *)
Lemma descending_stable_unique l1 l2 :
  StronglySorted (key_ge key) l1 → StronglySorted (key_ge key) l2 →
  (∀ k, filter (λ a, key a = k) l1 = filter (λ a, key a = k) l2) →
  l1 = l2.
Proof.
  intros Hs1. revert l2.
  induction Hs1 as [|a l1 Hs1 IH Ha]; intros l2 Hs2 Heq.
  - destruct l2 as [|b l2]; [done|].
    specialize (Heq (key b)). rewrite filter_nil, filter_cons_True in Heq; done.
  - destruct Hs2 as [|b l2 Hs2 Hb].
    { specialize (Heq (key a)). rewrite filter_nil, filter_cons_True in Heq; done. }
    rewrite Forall_forall in Ha, Hb.
    assert (key a = key b) as Hab.
    { pose proof (Heq (key a)) as Hka. pose proof (Heq (key b)) as Hkb.
      rewrite (filter_cons_True _ a) in Hka by done.
      rewrite (filter_cons_True _ b l2) in Hkb by done.
      assert (a ∈ b :: l2) as Hin2.
      { eapply (proj1 (list_elem_of_filter (λ x, key x = key a) _ a)).
        rewrite <- Hka. left. }
      assert (b ∈ a :: l1) as Hin1.
      { eapply (proj1 (list_elem_of_filter (λ x, key x = key b) _ b)).
        rewrite Hkb. left. }
      apply elem_of_cons in Hin2 as [->|Hin2]; [done|].
      apply elem_of_cons in Hin1 as [->|Hin1]; [done|].
      specialize (Ha _ Hin1). specialize (Hb _ Hin2).
      unfold key_ge in Ha, Hb. lia. }
    assert (a = b) as <-.
    { specialize (Heq (key a)).
      rewrite !filter_cons_True in Heq by done. by injection Heq. }
    f_equal. apply IH; [done|]. intros k. specialize (Heq k).
    rewrite !filter_cons in Heq. case_decide; [by injection Heq|done].
Qed.

Lemma list_sort_reverse_unique l sorted :
  StronglySorted (key_ge key) sorted →
  (∀ k, filter (λ a, key a = k) sorted = filter (λ a, key a = k) l) →
  sorted = list_sort_reverse key l.
Proof.
  intros Hs Hst. apply descending_stable_unique; [done| |].
  - apply list_sort_reverse_descending.
  - intros k. by rewrite list_sort_reverse_stable.
Qed.
End list_sort_facts.

Lemma list_sort_reverse_unique_witness :
  [3; 2; 1] = list_sort_reverse id [1; 3; 2].
Proof.
  apply (list_sort_reverse_unique id [1; 3; 2] [3; 2; 1]).
  - repeat constructor; unfold key_ge; simpl; lia.
  - intros k. rewrite !filter_cons, !filter_nil. simpl.
    repeat case_decide; try reflexivity; lia.
Defined.

(** ** Facts about the match finder *)

Lemma score_rows_spec user_id current_user rows scores :
  score_rows user_id current_user rows scores
  = scores ++ (match_of current_user <$> filter (λ r, userId r ≠ user_id) rows).
Proof.
  revert scores. induction rows as [|r rows IH]; intros scores; simpl.
  - by rewrite app_nil_r.
  - rewrite filter_cons. case_bool_decide as Hid.
    + rewrite decide_False by tauto. apply IH.
    + rewrite decide_True by done. rewrite IH, fmap_cons.
      by rewrite <- app_assoc.
Qed.

Lemma candidates_filters role user_id current_user users_df :
  filter (λ r, userId r ≠ user_id)
    (filter (λ r, userId r ∉ dislikedUserIds current_user)
       (filter (λ r, userType r = role) users_df))
  = candidates role user_id current_user users_df.
Proof.
  unfold candidates. rewrite !list_filter_filter.
  apply list_filter_iff. intros r. tauto.
Qed.

Lemma elem_of_candidates role user_id current_user users_df r :
  r ∈ candidates role user_id current_user users_df ↔
  r ∈ users_df ∧ userType r = role
  ∧ (userId r ∉ dislikedUserIds current_user) ∧ userId r ≠ user_id.
Proof. unfold candidates. rewrite list_elem_of_filter. tauto. Qed.

(** The requested id occurs in the collection exactly when a current
    user is found. *)
Lemma current_user_of_present user_id users_df :
  user_id ∈ (userId <$> users_df) →
  ∃ current_user, current_user_of user_id users_df = Some current_user.
Proof.
  intros Hin. apply list_elem_of_fmap in Hin as (r & -> & Hr).
  unfold current_user_of.
  destruct (filter _ users_df) as [|r' rows] eqn:Hf; [|by eexists].
  exfalso. eapply (filter_nil_not_elem_of _ _ r); [exact Hf| |exact Hr]. done.
Qed.

Lemma current_user_of_absent user_id users_df :
  user_id ∉ (userId <$> users_df) → current_user_of user_id users_df = None.
Proof.
  intros Hnin. unfold current_user_of.
  destruct (filter _ users_df) as [|r rows] eqn:Hf; [done|].
  exfalso. apply Hnin.
  assert (r ∈ filter (λ r, userId r = user_id) users_df) as Hr
    by (rewrite Hf; left).
  apply list_elem_of_filter in Hr as [<- Hr]. by apply list_elem_of_fmap_2.
Qed.

Lemma current_user_of_elem user_id users_df current_user :
  current_user_of user_id users_df = Some current_user →
  current_user ∈ users_df ∧ userId current_user = user_id.
Proof.
  unfold current_user_of. intros Hh.
  destruct (filter _ users_df) as [|r rows] eqn:Hf; [done|].
  simpl in Hh. injection Hh as ->.
  assert (current_user ∈ filter (λ r, userId r = user_id) users_df) as Hr
    by (rewrite Hf; left).
  apply list_elem_of_filter in Hr. tauto.
Qed.

(** When the requested user is found, the result is the ranking of the
    candidates of the complementary role. *)
Lemma find_matches_found user_id users_df current_user :
  current_user_of user_id users_df = Some current_user →
  find_matches user_id users_df
  = Ok (list_sort_reverse tuple_score
          (match_of current_user <$>
             candidates (target_user_type current_user) user_id current_user
               users_df)).
Proof.
  unfold current_user_of, find_matches. intros Hh.
  destruct (filter (λ r, userId r = user_id) users_df) as [|r rows]; [done|].
  simpl in Hh. injection Hh as ->. simpl.
  by rewrite score_rows_spec, candidates_filters.
Qed.

Lemma find_matches_not_found user_id users_df :
  current_user_of user_id users_df = None →
  find_matches user_id users_df = Raise IndexError_out_of_bounds.
Proof.
  unfold current_user_of, find_matches. intros Hh.
  by destruct (filter (λ r, userId r = user_id) users_df).
Qed.

Lemma target_user_type_differs current_user :
  target_user_type current_user ≠ userType current_user.
Proof.
  unfold target_user_type. case_bool_decide as Ht; [by rewrite Ht|done].
Qed.

(** Rows of a collection with distinct ids are determined by their id. *)
Lemma row_of_id (users_df : list row) r1 r2 :
  NoDup (userId <$> users_df) →
  r1 ∈ users_df → r2 ∈ users_df → userId r1 = userId r2 → r1 = r2.
Proof.
  induction users_df as [|r rows IH]; simpl; intros Hnd H1 H2 Hid.
  - by apply elem_of_nil in H1.
  - apply NoDup_cons in Hnd as [Hr Hnd].
    apply elem_of_cons in H1 as [->|H1], H2 as [->|H2]; [done| | |by apply IH].
    + exfalso. apply Hr. rewrite Hid. by apply list_elem_of_fmap_2.
    + exfalso. apply Hr. rewrite <- Hid. by apply list_elem_of_fmap_2.
Qed.

Lemma filter_fmap_key {A B} (f : A → B) (P : B → Prop)
    `{!∀ b, Decision (P b)} (l : list A) :
  filter P (f <$> l) = f <$> filter (λ a, P (f a)) l.
Proof.
  induction l as [|a l IH]; [done|].
  rewrite fmap_cons, !filter_cons.
  case_decide; by rewrite ?fmap_cons, IH.
Qed.

Lemma StronglySorted_lookup_lt {A} (R : relation A) (l : list A) i j a b :
  StronglySorted R l → (i < j)%nat →
  l !! i = Some a → l !! j = Some b → R a b.
Proof.
  intros Hs. revert i j. induction Hs as [|x l Hl IH Hall]; intros i j Hij Hi Hj.
  - done.
  - destruct j as [|j]; [lia|]. simpl in Hj.
    destruct i as [|i]; simpl in Hi.
    + injection Hi as ->. rewrite Forall_forall in Hall.
      apply Hall. by eapply list_elem_of_lookup_2.
    + apply (IH i j); [lia|done|done].
Qed.

(** The three exclusions, on the candidates and on the ranked tuples. *)
Lemma ranked_elem current_user rows t :
  t ∈ list_sort_reverse tuple_score (match_of current_user <$> rows) ↔
  ∃ r, r ∈ rows ∧ t = match_of current_user r.
Proof.
  rewrite list_sort_reverse_Permutation, list_elem_of_fmap.
  split; intros (r & H1 & H2); exists r; by split.
Qed.

(** ** The properties of the match finder *)

(** C2: for a requested id that occurs in the collection, [find_matches]
    returns a list in which no tuple carries a disliked id or the
    requested id, and every tuple is the tuple of a row of the collection
    whose role differs from the current user's, whose id is not disliked
    and which is not the current user.  When the ids of the collection
    are distinct, no row with the current user's role has its id in the
    result. *)
Theorem find_matches_excludes (user_id : Z) (users_df : list row) :
  user_id ∈ (userId <$> users_df) →
  ∃ current_user scores,
    current_user_of user_id users_df = Some current_user
    ∧ find_matches user_id users_df = Ok scores
    ∧ (∀ t, t ∈ scores →
         (tuple_id t ∉ dislikedUserIds current_user)
         ∧ tuple_id t ≠ user_id
         ∧ ∃ r, r ∈ users_df
                ∧ t = match_of current_user r
                ∧ userType r ≠ userType current_user
                ∧ (userId r ∉ dislikedUserIds current_user)
                ∧ r ≠ current_user)
    ∧ (NoDup (userId <$> users_df) →
       ∀ r, r ∈ users_df → userType r = userType current_user →
            userId r ∉ (tuple_id <$> scores)).
Proof.
  intros Hin. destruct (current_user_of_present _ _ Hin) as [cur Hcur].
  exists cur. eexists. split; [done|].
  split; [by apply find_matches_found|].
  pose proof (target_user_type_differs cur) as Hrole.
  assert (∀ t, t ∈ list_sort_reverse tuple_score
                 (match_of cur <$> candidates (target_user_type cur) user_id cur users_df) →
          ∃ r, t = match_of cur r ∧ r ∈ users_df
               ∧ userType r = target_user_type cur
               ∧ (userId r ∉ dislikedUserIds cur) ∧ userId r ≠ user_id) as Hfrom.
  { intros t Ht. apply ranked_elem in Ht as (r & Hr & ->).
    apply elem_of_candidates in Hr as (Hr & Hty & Hdis & Hid).
    exists r. by repeat split. }
  split.
  - intros t Ht. destruct (Hfrom t Ht) as (r & -> & Hr & Hty & Hdis & Hid).
    split; [done|]. split; [done|].
    exists r. repeat split; try done; [congruence|].
    intros ->. congruence.
  - intros Hnd r Hr Hty Hidin.
    apply list_elem_of_fmap in Hidin as (t & Hid & Ht).
    destruct (Hfrom t Ht) as (r' & -> & Hr' & Hty' & _).
    assert (r = r') as <- by (by apply (row_of_id users_df)).
    congruence.
Qed.

Lemma find_matches_excludes_witness :
  ∃ current_user scores,
    current_user_of 1 users = Some current_user
    ∧ find_matches 1 users = Ok scores
    ∧ (∀ t, t ∈ scores →
         (tuple_id t ∉ dislikedUserIds current_user)
         ∧ tuple_id t ≠ 1
         ∧ ∃ r, r ∈ users
                ∧ t = match_of current_user r
                ∧ userType r ≠ userType current_user
                ∧ (userId r ∉ dislikedUserIds current_user)
                ∧ r ≠ current_user)
    ∧ (NoDup (userId <$> users) →
       ∀ r, r ∈ users → userType r = userType current_user →
            userId r ∉ (tuple_id <$> scores)).
Proof.
  apply (find_matches_excludes 1 users).
  apply (bool_decide_unpack _). vm_compute. exact I.
Defined.

(** C3: for a requested id that occurs in the collection, the returned
    tuples are in descending order of score, and for every score the
    tuples with that score are, in their order in the result, the tuples
    of the candidate rows with that score in the order of the
    collection. *)
Theorem find_matches_sorted_stable (user_id : Z) (users_df : list row) :
  user_id ∈ (userId <$> users_df) →
  ∃ current_user scores,
    current_user_of user_id users_df = Some current_user
    ∧ find_matches user_id users_df = Ok scores
    ∧ (∀ i j a b, (i < j)%nat →
         scores !! i = Some a → scores !! j = Some b →
         tuple_score b ≤ tuple_score a)
    ∧ (∀ s, filter (λ t, tuple_score t = s) scores
            = match_of current_user <$>
                filter (λ r, calculate_compatibility current_user r = s)
                  (candidates (target_user_type current_user) user_id
                     current_user users_df)).
Proof.
  intros Hin. destruct (current_user_of_present _ _ Hin) as [cur Hcur].
  exists cur. eexists. split; [done|].
  split; [by apply find_matches_found|]. split.
  - intros i j a b Hij Hi Hj.
    apply (StronglySorted_lookup_lt (key_ge tuple_score) _ i j a b
             (list_sort_reverse_descending tuple_score _) Hij Hi Hj).
  - intros s. rewrite list_sort_reverse_stable.
    by rewrite filter_fmap_key.
Qed.

Lemma find_matches_sorted_stable_witness :
  ∃ current_user scores,
    current_user_of 1 users = Some current_user
    ∧ find_matches 1 users = Ok scores
    ∧ (∀ i j a b, (i < j)%nat →
         scores !! i = Some a → scores !! j = Some b →
         tuple_score b ≤ tuple_score a)
    ∧ (∀ s, filter (λ t, tuple_score t = s) scores
            = match_of current_user <$>
                filter (λ r, calculate_compatibility current_user r = s)
                  (candidates (target_user_type current_user) 1
                     current_user users)).
Proof.
  apply (find_matches_sorted_stable 1 users).
  apply (bool_decide_unpack _). vm_compute. exact I.
Defined.

(** On the sample collection the two guides with score 40 come out in
    the order of the collection. *)
Example find_matches_users_1 :
  find_matches 1 users
  = Ok [("Omar"%string, 2, 85); ("Laila"%string, 3, 40); ("Yasmin"%string, 7, 40)].
Proof. vm_compute. reflexivity. Qed.

(** C4, as stated, fails: for an id that is not in the collection the
    call ends in the [IndexError] of the positional access [.iloc[0]];
    its message does not speak of a user that was not found. *)
Lemma find_matches_absent_id_index_error :
  (99 ∉ (userId <$> users))
  ∧ find_matches 99 users
    = Raise (Exn "IndexError" "single positional indexer is out-of-bounds")
  ∧ mentions "not found" "single positional indexer is out-of-bounds" = false
  ∧ ¬ user_not_found_failure (find_matches 99 users).
Proof.
  split; [apply (bool_decide_unpack _); vm_compute; exact I|].
  split; [vm_compute; reflexivity|]. split; [vm_compute; reflexivity|].
  intros (e & He & Hclass & _). vm_compute in He. injection He as <-.
  by apply Hclass.
Qed.

(** C4, amended: for an id that is not in the collection [find_matches]
    raises the [IndexError] "single positional indexer is out-of-bounds"
    of the positional access, and returns no list. *)
Theorem find_matches_absent_id (user_id : Z) (users_df : list row) :
  user_id ∉ (userId <$> users_df) →
  find_matches user_id users_df
  = Raise (Exn "IndexError" "single positional indexer is out-of-bounds").
Proof.
  intros Hnin. apply find_matches_not_found.
  by apply current_user_of_absent.
Qed.

Lemma find_matches_absent_id_witness :
  find_matches 99 users
  = Raise (Exn "IndexError" "single positional indexer is out-of-bounds").
Proof.
  apply (find_matches_absent_id 99 users).
  apply (bool_decide_unpack _). vm_compute. exact I.
Defined.

(** C9: a current user whose role is not the string "Traveler", whatever
    it is, is matched with the candidates of role "Traveler"; a current
    user of role "Traveler" is matched with the candidates of role
    "Guide".  In both cases the call returns a list. *)
Theorem find_matches_role_default (user_id : Z) (users_df : list row)
    (current_user : row) :
  current_user_of user_id users_df = Some current_user →
  (userType current_user ≠ "Traveler"%string →
   find_matches user_id users_df
   = Ok (list_sort_reverse tuple_score
           (match_of current_user <$>
              candidates "Traveler" user_id current_user users_df)))
  ∧ (userType current_user = "Traveler"%string →
     find_matches user_id users_df
     = Ok (list_sort_reverse tuple_score
             (match_of current_user <$>
                candidates "Guide" user_id current_user users_df))).
Proof.
  intros Hcur. rewrite (find_matches_found _ _ _ Hcur).
  unfold target_user_type. split; intros Hty.
  - by rewrite bool_decide_eq_false_2.
  - by rewrite bool_decide_eq_true_2.
Qed.

Lemma find_matches_role_default_witness :
  userType hana = "Admin"%string
  ∧ find_matches 6 users
    = Ok (list_sort_reverse tuple_score
            (match_of hana <$> candidates "Traveler" 6 hana users)).
Proof.
  split; [reflexivity|].
  apply (find_matches_role_default 6 users hana).
  - vm_compute. reflexivity.
  - vm_compute. discriminate.
Defined.

(** The user with the third role gets the two travellers. *)
Example find_matches_users_6 :
  find_matches 6 users = Ok [("Nour"%string, 1, 75); ("Salma"%string, 5, 10)].
Proof. vm_compute. reflexivity. Qed.

(** ** The match finder on the store *)

Module StoreFacts.

Lemma bind_Ok {A B} (m : Store.M A) (k : A → Store.M B) h a h' :
  m h = (Ok a, h') → Store.bind m k h = k a h'.
Proof. unfold Store.bind. by intros ->. Qed.

Lemma bind_Raise {A B} (m : Store.M A) (k : A → Store.M B) h e h' :
  m h = (Raise e, h') → Store.bind m k h = (Raise e, h').
Proof. unfold Store.bind. by intros ->. Qed.

Lemma rows_of_DataFrame (h : gmap Store.loc Store.obj) l rows :
  h !! l = Some (Store.DataFrame rows) → Store.rows_of l h = (Ok rows, h).
Proof. unfold Store.rows_of. by intros ->. Qed.

Lemma fresh_lookup (h : gmap Store.loc Store.obj) :
  h !! fresh (dom h) = None.
Proof. apply not_elem_of_dom, is_fresh. Qed.

Lemma new_extends (h : gmap Store.loc Store.obj) o :
  h ⊆ <[fresh (dom h) := o]> h.
Proof. apply insert_subseteq, fresh_lookup. Qed.

(** The loop leaves in [scores] what [score_rows] computes, and
    touches nothing else. *)
Lemma for_each_score_rows user_id current_user rows
    (h : gmap Store.loc Store.obj) scores items :
  h !! scores = Some (Store.PyList items) →
  Store.for_each rows (λ potential_match,
    if bool_decide (userId potential_match = user_id) then Store.ret tt
    else Store.append scores (match_of current_user potential_match)) h
  = (Ok tt,
     <[scores := Store.PyList (score_rows user_id current_user rows items)]> h).
Proof.
  revert h items. induction rows as [|r rows IH]; intros h items Hsc; simpl.
  - unfold Store.ret. by rewrite insert_id.
  - case_bool_decide as Hid.
    + unfold Store.bind, Store.ret. by apply IH.
    + unfold Store.bind, Store.append. rewrite Hsc.
      rewrite (IH _ (items ++ [match_of current_user r]))
        by apply lookup_insert_eq.
      by rewrite insert_insert_eq.
Qed.

Lemma bind_new {B} o (k : Store.loc → Store.M B)
    (h : gmap Store.loc Store.obj) :
  Store.bind (Store.new o) k h
  = k (fresh (dom h)) (<[fresh (dom h) := o]> h).
Proof. reflexivity. Qed.

Lemma bind_rows_of {B} l (k : list row → Store.M B)
    (h : gmap Store.loc Store.obj) rows :
  h !! l = Some (Store.DataFrame rows) →
  Store.bind (Store.rows_of l) k h = k rows h.
Proof. intros Hl. by apply bind_Ok, rows_of_DataFrame. Qed.

Lemma bind_lift {A B} (r : result A) (k : A → Store.M B)
    (h : gmap Store.loc Store.obj) :
  Store.bind (Store.lift r) k h
  = match r with Ok a => k a h | Raise e => (Raise e, h) end.
Proof. unfold Store.bind, Store.lift. by destruct r. Qed.

(** A call on a heap that holds the frame [users_df_rows] at
    [users_df], step by step: it raises what [find_matches] raises on
    the rows, or returns a reference, unused before, to a list with the
    tuples [find_matches] computes; the heap only grows. *)
Lemma find_matches_run_full user_id users_df (h : gmap Store.loc Store.obj)
    users_df_rows :
  h !! users_df = Some (Store.DataFrame users_df_rows) →
  match find_matches user_id users_df_rows with
  | Raise e =>
      ∃ h', Store.find_matches user_id users_df h = (Raise e, h') ∧ h ⊆ h'
  | Ok scores =>
      ∃ l h', Store.find_matches user_id users_df h = (Ok l, h')
              ∧ h ⊆ h' ∧ h !! l = None
              ∧ h' !! l = Some (Store.PyList scores)
  end.
Proof.
  intros Hdf.
  pose proof (eq_refl (Store.find_matches user_id users_df h)) as Hrun.
  unfold Store.find_matches in Hrun at 2. unfold find_matches.
  rewrite (bind_rows_of _ _ _ _ Hdf), bind_new in Hrun.
  set (sel := filter (λ r, userId r = user_id) users_df_rows) in *.
  set (l1 := fresh (dom h)) in *.
  set (h1 := <[l1 := Store.DataFrame sel]> h) in *.
  assert (h ⊆ h1) as H01 by apply new_extends.
  rewrite (bind_rows_of _ _ h1 sel), bind_lift in Hrun
    by apply lookup_insert_eq.
  destruct (iloc0 sel) as [cur|e]; [|by exists h1].
  cbv zeta in Hrun.
  rewrite (bind_rows_of _ _ h1 users_df_rows), bind_new in Hrun
    by (by eapply lookup_weaken).
  set (pm1 := filter (λ r, userType r = target_user_type cur) users_df_rows) in *.
  set (l2 := fresh (dom h1)) in *.
  set (h2 := <[l2 := Store.DataFrame pm1]> h1) in *.
  assert (h1 ⊆ h2) as H12 by apply new_extends.
  rewrite (bind_rows_of _ _ h2 pm1), bind_new in Hrun
    by apply lookup_insert_eq.
  set (lc := fresh (dom h2)) in *.
  set (hc := <[lc := Store.DataFrame pm1]> h2) in *.
  assert (h2 ⊆ hc) as H2c by apply new_extends.
  rewrite (bind_rows_of _ _ hc pm1), bind_new in Hrun
    by apply lookup_insert_eq.
  set (pm2 := filter (λ r, userId r ∉ dislikedUserIds cur) pm1) in *.
  set (l3 := fresh (dom hc)) in *.
  set (h3 := <[l3 := Store.DataFrame pm2]> hc) in *.
  assert (hc ⊆ h3) as H23 by apply new_extends.
  rewrite bind_new in Hrun.
  set (l4 := fresh (dom h3)) in *.
  set (h4 := <[l4 := Store.PyList []]> h3) in *.
  rewrite (bind_rows_of _ _ h4 pm2) in Hrun
    by (eapply lookup_weaken; [apply lookup_insert_eq | apply new_extends]).
  rewrite (bind_Ok _ _ h4 tt _
             (for_each_score_rows user_id cur pm2 h4 l4 []
                (lookup_insert_eq _ _ _))) in Hrun.
  unfold h4 in Hrun. rewrite insert_insert_eq in Hrun.
  set (scores := score_rows user_id cur pm2 []) in *.
  unfold Store.bind, Store.sort_by_score_reverse, Store.ret in Hrun.
  rewrite lookup_insert_eq, insert_insert_eq in Hrun.
  assert (h ⊆ h3) as H03.
  { etrans; [exact H01|]. etrans; [exact H12|]. by etrans. }
  exists l4. eexists. split; [exact Hrun|]. split_and!.
  - etrans; [exact H03|]. apply insert_subseteq, fresh_lookup.
  - eapply lookup_weaken_None; [apply fresh_lookup|exact H03].
  - apply lookup_insert_eq.
Qed.

(** A call on a heap that holds the frame [users_df_rows] at
    [users_df]: the heap only grows by new objects, and the list the
    call returns is the one [find_matches] computes on the rows. *)
Lemma find_matches_run user_id users_df (h : gmap Store.loc Store.obj)
    users_df_rows :
  h !! users_df = Some (Store.DataFrame users_df_rows) →
  h ⊆ (Store.find_matches user_id users_df h).2
  ∧ Store.returned_list (Store.find_matches user_id users_df h)
    = Some (find_matches user_id users_df_rows).
Proof.
  intros Hdf.
  pose proof (find_matches_run_full user_id _ _ _ Hdf) as Hfull.
  destruct (find_matches user_id users_df_rows) as [scores|e].
  - destruct Hfull as (l & h' & -> & Hsub & _ & Hl).
    split; [done|]. unfold Store.returned_list. by rewrite Hl.
  - destruct Hfull as (h' & -> & Hsub). by split.
Qed.

(** X1: the store-level function computes what the value-level one does: on
    a heap that holds a frame at [users_df], a call raises the exception
    [find_matches] raises on the frame's rows, or returns a reference,
    not in use before the call, to a list holding the tuples
    [find_matches] returns; objects are added to the heap, none is
    changed. *)
Theorem find_matches_store_refines (user_id : Z) (users_df : Store.loc)
    (h : gmap Store.loc Store.obj) (users_df_rows : list row) :
  h !! users_df = Some (Store.DataFrame users_df_rows) →
  match find_matches user_id users_df_rows with
  | Raise e =>
      ∃ h', Store.find_matches user_id users_df h = (Raise e, h') ∧ h ⊆ h'
  | Ok scores =>
      ∃ l h', Store.find_matches user_id users_df h = (Ok l, h')
              ∧ h ⊆ h' ∧ h !! l = None
              ∧ h' !! l = Some (Store.PyList scores)
  end.
Proof. apply find_matches_run_full. Qed.

Lemma find_matches_store_refines_witness :
  ∃ l h', Store.find_matches 1 1%positive
            {[1%positive := Store.DataFrame users]} = (Ok l, h')
          ∧ ({[1%positive := Store.DataFrame users]} : gmap Store.loc Store.obj) ⊆ h'
          ∧ ({[1%positive := Store.DataFrame users]} : gmap Store.loc Store.obj) !! l = None
          ∧ h' !! l
            = Some (Store.PyList
                      [("Omar"%string, 2, 85); ("Laila"%string, 3, 40);
                       ("Yasmin"%string, 7, 40)]).
Proof.
  apply (find_matches_store_refines 1 1%positive
           {[1%positive := Store.DataFrame users]} users).
  apply lookup_singleton_eq.
Defined.

(** X2: each call makes its own list: two calls in a row return two
    different references, each to a list with the same tuples, and the
    second call leaves the list of the first as it was. *)
Theorem find_matches_twice (user_id : Z) (users_df : Store.loc)
    (h : gmap Store.loc Store.obj) (users_df_rows : list row)
    (scores : list match_tuple) :
  h !! users_df = Some (Store.DataFrame users_df_rows) →
  find_matches user_id users_df_rows = Ok scores →
  ∃ l1 h1 l2 h2,
    Store.find_matches user_id users_df h = (Ok l1, h1)
    ∧ Store.find_matches user_id users_df h1 = (Ok l2, h2)
    ∧ l1 ≠ l2
    ∧ h2 !! l1 = Some (Store.PyList scores)
    ∧ h2 !! l2 = Some (Store.PyList scores)
    ∧ h2 !! users_df = Some (Store.DataFrame users_df_rows).
Proof.
  intros Hdf Hfm.
  pose proof (find_matches_run_full user_id _ _ _ Hdf) as Hrun1.
  rewrite Hfm in Hrun1. destruct Hrun1 as (l1 & h1 & Hr1 & Hsub1 & _ & Hl1).
  assert (h1 !! users_df = Some (Store.DataFrame users_df_rows)) as Hdf1
    by (by eapply lookup_weaken).
  pose proof (find_matches_run_full user_id _ _ _ Hdf1) as Hrun2.
  rewrite Hfm in Hrun2. destruct Hrun2 as (l2 & h2 & Hr2 & Hsub2 & Hnew2 & Hl2).
  exists l1, h1, l2, h2. split_and!; try done.
  - intros <-. by rewrite Hl1 in Hnew2.
  - by eapply lookup_weaken.
  - by eapply lookup_weaken.
Qed.

Lemma find_matches_twice_witness :
  ∃ l1 h1 l2 h2,
    Store.find_matches 6 1%positive {[1%positive := Store.DataFrame users]}
    = (Ok l1, h1)
    ∧ Store.find_matches 6 1%positive h1 = (Ok l2, h2)
    ∧ l1 ≠ l2
    ∧ h2 !! l1 = Some (Store.PyList [("Nour"%string, 1, 75); ("Salma"%string, 5, 10)])
    ∧ h2 !! l2 = Some (Store.PyList [("Nour"%string, 1, 75); ("Salma"%string, 5, 10)])
    ∧ h2 !! 1%positive = Some (Store.DataFrame users).
Proof.
  apply (find_matches_twice 6 1%positive
           {[1%positive := Store.DataFrame users]} users).
  - apply lookup_singleton_eq.
  - vm_compute. reflexivity.
Defined.

(** C8: a call of [find_matches] changes no object that existed
    before it: the final heap extends the initial one, and in
    particular holds at [users_df] what the initial heap held there
    (the user collection with all its records).  The in-place updates
    of the call ([append], [sort]) go to the list it created. *)
Theorem find_matches_no_mutation (user_id : Z) (users_df : Store.loc)
    (h : gmap Store.loc Store.obj) :
  h ⊆ (Store.find_matches user_id users_df h).2
  ∧ (Store.find_matches user_id users_df h).2 !! users_df = h !! users_df.
Proof.
  assert (h ⊆ (Store.find_matches user_id users_df h).2) as Hsub.
  { destruct (h !! users_df) as [[rows|items]|] eqn:Hdf.
    - by apply (find_matches_run user_id users_df h rows).
    - unfold Store.find_matches.
      rewrite (bind_Raise _ _ h (Store.TypeError "not a DataFrame") h);
        [done|]. unfold Store.rows_of. by rewrite Hdf.
    - unfold Store.find_matches.
      rewrite (bind_Raise _ _ h (Store.TypeError "not a DataFrame") h);
        [done|]. unfold Store.rows_of. by rewrite Hdf. }
  split; [done|].
  destruct (h !! users_df) as [o|] eqn:Hdf.
  - by eapply lookup_weaken.
  - unfold Store.find_matches.
    rewrite (bind_Raise _ _ h (Store.TypeError "not a DataFrame") h);
      [done|]. unfold Store.rows_of. by rewrite Hdf.
Qed.

End StoreFacts.

(** ** More about the scorer *)


Lemma field_set_same_elements l1 l2 :
  same_elements l1 l2 → field_set l1 = field_set l2.
Proof.
  intros Hsame. unfold field_set. apply set_eq. intros x.
  rewrite !elem_of_list_to_set. apply Hsame.
Qed.

Lemma shared_same_elements l1 l1' l2 :
  same_elements l1 l1' → shared l1 l2 = shared l1' l2.
Proof. intros Hs. unfold shared. by rewrite (field_set_same_elements _ _ Hs). Qed.

Lemma shared_mono l1 l1' l2 :
  l1 ⊆ l1' → (shared l1 l2 ≤ shared l1' l2)%nat.
Proof.
  intros Hsub. unfold shared, field_set. apply subseteq_size.
  intros x. rewrite !elem_of_intersection, !elem_of_list_to_set.
  intros [H1 H2]. split; [by apply Hsub|done].
Qed.

Lemma shared_zero l1 l2 : shared l1 l2 = 0%nat ↔ no_common l1 l2.
Proof.
  unfold shared, field_set, no_common. rewrite size_empty_iff. split.
  - intros Hempty x H1 H2. apply (not_elem_of_empty (C := gset string) x).
    rewrite <- Hempty, elem_of_intersection, !elem_of_list_to_set. by split.
  - intros Hno. apply set_equiv. intros x.
    rewrite elem_of_intersection, !elem_of_list_to_set. split.
    + intros [H1 H2]. by destruct (Hno x H1).
    + intros Hx. by apply not_elem_of_empty in Hx.
Qed.

Lemma shared_nil_l l : shared [] l = 0%nat.
Proof. apply shared_zero. intros x Hx. by apply elem_of_nil in Hx. Qed.

Lemma score_comm a b :
  calculate_compatibility a b = calculate_compatibility b a.
Proof.
  rewrite !score_sum.
  rewrite (shared_comm (interests a)), (shared_comm (languages a)),
    (shared_comm (preferredActivities a)), (shared_comm (preferredCountries a)).
  by rewrite (style_bonus_comm a b).
Qed.


(** X9: the score reads each list field as a set: a first user whose four
    list fields have the same elements (in any order, with any
    repetitions) and whose travel style is the same gets the same score
    against every second user. *)
Theorem calculate_compatibility_same_elements (user1 user1' user2 : row) :
  same_elements (interests user1) (interests user1') →
  same_elements (languages user1) (languages user1') →
  same_elements (preferredActivities user1) (preferredActivities user1') →
  same_elements (preferredCountries user1) (preferredCountries user1') →
  travelStyle user1 = travelStyle user1' →
  calculate_compatibility user1 user2 = calculate_compatibility user1' user2.
Proof.
  intros Hi Hl Ha Hc Hs. rewrite !score_sum. unfold style_bonus.
  by rewrite (shared_same_elements _ _ _ Hi), (shared_same_elements _ _ _ Hl),
    (shared_same_elements _ _ _ Ha), (shared_same_elements _ _ _ Hc), Hs.
Qed.

Lemma calculate_compatibility_same_elements_witness :
  calculate_compatibility nour omar = calculate_compatibility nour_shuffled omar.
Proof.
  apply (calculate_compatibility_same_elements nour nour_shuffled omar);
    try reflexivity; intros x; simpl;
    rewrite !elem_of_cons, !elem_of_nil; tauto.
Defined.

(** X10: adding entries to the list fields of a user never lowers a score:
    if every entry of each list field of [user1] is also in that field
    of [user1'], and the travel style is the same, [user1'] scores at
    least as much against every second user. *)
Theorem calculate_compatibility_monotone (user1 user1' user2 : row) :
  interests user1 ⊆ interests user1' →
  languages user1 ⊆ languages user1' →
  preferredActivities user1 ⊆ preferredActivities user1' →
  preferredCountries user1 ⊆ preferredCountries user1' →
  travelStyle user1 = travelStyle user1' →
  calculate_compatibility user1 user2 ≤ calculate_compatibility user1' user2.
Proof.
  intros Hi Hl Ha Hc Hs. rewrite !score_sum. unfold style_bonus. rewrite Hs.
  pose proof (shared_mono _ _ (interests user2) Hi).
  pose proof (shared_mono _ _ (languages user2) Hl).
  pose proof (shared_mono _ _ (preferredActivities user2) Ha).
  pose proof (shared_mono _ _ (preferredCountries user2) Hc).
  lia.
Qed.

Lemma calculate_compatibility_monotone_witness :
  calculate_compatibility nour_before omar ≤ calculate_compatibility nour omar.
Proof.
  apply (calculate_compatibility_monotone nour_before nour omar);
    try reflexivity; intros x; simpl;
    rewrite !elem_of_cons, !elem_of_nil; tauto.
Defined.

(** X11: every score is a multiple of 5, and a multiple of 10 when the travel
    styles differ. *)
Theorem calculate_compatibility_multiple_of_5 (user1 user2 : row) :
  calculate_compatibility user1 user2 mod 5 = 0
  ∧ (travelStyle user1 ≠ travelStyle user2 →
     calculate_compatibility user1 user2 mod 10 = 0).
Proof.
  rewrite score_sum. unfold style_bonus. split.
  - case_bool_decide; apply Z.mod_divide; try lia.
    + exists (2 * Z.of_nat (shared (interests user1) (interests user2))
              + 6 * Z.of_nat (shared (languages user1) (languages user2)) + 5
              + 2 * Z.of_nat (shared (preferredActivities user1) (preferredActivities user2))
              + 4 * Z.of_nat (shared (preferredCountries user1) (preferredCountries user2))).
      lia.
    + exists (2 * Z.of_nat (shared (interests user1) (interests user2))
              + 6 * Z.of_nat (shared (languages user1) (languages user2))
              + 2 * Z.of_nat (shared (preferredActivities user1) (preferredActivities user2))
              + 4 * Z.of_nat (shared (preferredCountries user1) (preferredCountries user2))).
      lia.
  - intros Hne. rewrite bool_decide_eq_false_2 by done.
    apply Z.mod_divide; [lia|].
    exists (Z.of_nat (shared (interests user1) (interests user2))
            + 3 * Z.of_nat (shared (languages user1) (languages user2))
            + Z.of_nat (shared (preferredActivities user1) (preferredActivities user2))
            + 2 * Z.of_nat (shared (preferredCountries user1) (preferredCountries user2))).
    lia.
Qed.

(** X12: the score is 0 exactly when the two users have nothing in common:
    no common interest, language, preferred activity or preferred
    country, and different travel styles. *)
Theorem calculate_compatibility_zero_iff (user1 user2 : row) :
  calculate_compatibility user1 user2 = 0 ↔
  no_common (interests user1) (interests user2)
  ∧ no_common (languages user1) (languages user2)
  ∧ travelStyle user1 ≠ travelStyle user2
  ∧ no_common (preferredActivities user1) (preferredActivities user2)
  ∧ no_common (preferredCountries user1) (preferredCountries user2).
Proof.
  rewrite score_sum, <- !shared_zero. unfold style_bonus.
  case_bool_decide as Hs; split.
  - lia.
  - intros (_ & _ & Hne & _). done.
  - intros H0. repeat split; try lia. done.
  - intros (-> & -> & _ & -> & ->). reflexivity.
Qed.

(** X13: a user with empty list fields scores, against anyone, 25 when the
    travel styles are equal and 0 otherwise. *)
Theorem calculate_compatibility_empty_profile (user1 user2 : row) :
  interests user1 = [] → languages user1 = [] →
  preferredActivities user1 = [] → preferredCountries user1 = [] →
  calculate_compatibility user1 user2
  = if bool_decide (travelStyle user1 = travelStyle user2) then 25 else 0.
Proof.
  intros Hi Hl Ha Hc. rewrite score_sum, Hi, Hl, Ha, Hc, !shared_nil_l.
  unfold style_bonus. case_bool_decide; reflexivity.
Qed.

Lemma calculate_compatibility_empty_profile_witness :
  calculate_compatibility blank omar
  = if bool_decide (travelStyle blank = travelStyle omar) then 25 else 0.
Proof.
  apply (calculate_compatibility_empty_profile blank omar); reflexivity.
Defined.

(** ** More about the match finder *)

Lemma find_matches_Ok_inv user_id users_df scores :
  find_matches user_id users_df = Ok scores →
  ∃ current_user,
    current_user_of user_id users_df = Some current_user
    ∧ scores = list_sort_reverse tuple_score
                 (match_of current_user <$>
                    candidates (target_user_type current_user) user_id
                      current_user users_df).
Proof.
  intros Hfm.
  destruct (current_user_of user_id users_df) as [cur|] eqn:Hcur.
  - exists cur. split; [done|].
    rewrite (find_matches_found _ _ _ Hcur) in Hfm. by injection Hfm.
  - by rewrite (find_matches_not_found _ _ Hcur) in Hfm.
Qed.

Lemma target_user_type_cases current_user :
  target_user_type current_user = "Traveler"%string
  ∨ target_user_type current_user = "Guide"%string.
Proof. unfold target_user_type. case_bool_decide; [by right|by left]. Qed.

Lemma current_user_of_unique (users_df : list row) current_user :
  NoDup (userId <$> users_df) → current_user ∈ users_df →
  current_user_of (userId current_user) users_df = Some current_user.
Proof.
  intros Hnd Hin.
  destruct (current_user_of_present (userId current_user) users_df)
    as [cur' Hcur']; [by apply list_elem_of_fmap_2|].
  rewrite Hcur'. f_equal.
  apply current_user_of_elem in Hcur' as [Hin' Hid].
  by apply (row_of_id users_df).
Qed.

(** X3: nobody eligible is left out and nothing is listed twice: the result
    is a rearrangement of the tuples of the candidates, so it has one
    tuple per candidate row, and the tuple of every row of the
    complementary role that is not disliked and does not carry the
    requested id is in it. *)
Theorem find_matches_complete (user_id : Z) (users_df : list row) :
  user_id ∈ (userId <$> users_df) →
  ∃ current_user scores,
    current_user_of user_id users_df = Some current_user
    ∧ find_matches user_id users_df = Ok scores
    ∧ scores ≡ₚ match_of current_user <$>
                 candidates (target_user_type current_user) user_id
                   current_user users_df
    ∧ (∀ r, r ∈ users_df →
         userType r = target_user_type current_user →
         (userId r ∉ dislikedUserIds current_user) →
         userId r ≠ user_id →
         match_of current_user r ∈ scores).
Proof.
  intros Hin. destruct (current_user_of_present _ _ Hin) as [cur Hcur].
  exists cur. eexists. split; [done|].
  split; [by apply find_matches_found|]. split.
  - apply list_sort_reverse_Permutation.
  - intros r Hr Hty Hdis Hid. apply ranked_elem. exists r. split; [|done].
    apply elem_of_candidates. by repeat split.
Qed.

Lemma find_matches_complete_witness :
  ∃ current_user scores,
    current_user_of 1 users = Some current_user
    ∧ find_matches 1 users = Ok scores
    ∧ scores ≡ₚ match_of current_user <$>
                 candidates (target_user_type current_user) 1
                   current_user users
    ∧ (∀ r, r ∈ users →
         userType r = target_user_type current_user →
         (userId r ∉ dislikedUserIds current_user) →
         userId r ≠ 1 →
         match_of current_user r ∈ scores).
Proof.
  apply (find_matches_complete 1 users).
  apply (bool_decide_unpack _). vm_compute. exact I.
Defined.

(** X4: only rows of role "Traveler" or "Guide" are ever listed: every tuple
    of a result is the tuple of such a row of the collection.  A user
    with any other role appears in nobody's matches. *)
Theorem find_matches_lists_two_roles (user_id : Z) (users_df : list row)
    (scores : list match_tuple) (t : match_tuple) :
  find_matches user_id users_df = Ok scores → t ∈ scores →
  ∃ r, r ∈ users_df
       ∧ tuple_name t = userName r ∧ tuple_id t = userId r
       ∧ (userType r = "Traveler"%string ∨ userType r = "Guide"%string).
Proof.
  intros Hfm Ht. apply find_matches_Ok_inv in Hfm as (cur & Hcur & ->).
  apply ranked_elem in Ht as (r & Hr & ->).
  apply elem_of_candidates in Hr as (Hr & Hty & _).
  exists r. repeat split; [done|].
  rewrite Hty. apply target_user_type_cases.
Qed.

Lemma find_matches_lists_two_roles_witness :
  ∃ r, r ∈ users
       ∧ tuple_name ("Salma"%string, 5, 10) = userName r
       ∧ tuple_id ("Salma"%string, 5, 10) = userId r
       ∧ (userType r = "Traveler"%string ∨ userType r = "Guide"%string).
Proof.
  apply (find_matches_lists_two_roles 6 users
           [("Nour"%string, 1, 75); ("Salma"%string, 5, 10)]).
  - vm_compute. reflexivity.
  - apply (bool_decide_unpack _). vm_compute. exact I.
Defined.

(** X5: matching is mutual between a traveller and a guide who do not
    dislike each other: in a collection with distinct ids, each is in
    the other's result, with the same score. *)
Theorem find_matches_mutual (users_df : list row) (a b : row) :
  NoDup (userId <$> users_df) → a ∈ users_df → b ∈ users_df →
  userType a = "Traveler"%string → userType b = "Guide"%string →
  (userId b ∉ dislikedUserIds a) → (userId a ∉ dislikedUserIds b) →
  ∃ scores_a scores_b score,
    find_matches (userId a) users_df = Ok scores_a
    ∧ find_matches (userId b) users_df = Ok scores_b
    ∧ (userName b, userId b, score) ∈ scores_a
    ∧ (userName a, userId a, score) ∈ scores_b.
Proof.
  intros Hnd Ha Hb Hta Htb Hab Hba.
  assert (userId a ≠ userId b) as Hid.
  { intros Hid. assert (a = b) as -> by (by apply (row_of_id users_df)).
    rewrite Hta in Htb. discriminate. }
  pose proof (current_user_of_unique _ _ Hnd Ha) as Hca.
  pose proof (current_user_of_unique _ _ Hnd Hb) as Hcb.
  eexists _, _, (calculate_compatibility a b).
  split; [by apply find_matches_found|].
  split; [by apply find_matches_found|]. split.
  - apply ranked_elem. exists b. split; [|done].
    apply elem_of_candidates. split_and!; [done| |done|congruence].
    unfold target_user_type. by rewrite Hta, bool_decide_eq_true_2.
  - apply ranked_elem. exists a. split.
    + apply elem_of_candidates. split_and!; [done| |done|done].
      unfold target_user_type. rewrite Htb, Hta.
      by rewrite bool_decide_eq_false_2.
    + unfold match_of. by rewrite score_comm.
Qed.

Lemma find_matches_mutual_witness :
  ∃ scores_a scores_b score,
    find_matches 1 users = Ok scores_a
    ∧ find_matches 2 users = Ok scores_b
    ∧ ("Omar"%string, 2, score) ∈ scores_a
    ∧ ("Nour"%string, 1, score) ∈ scores_b.
Proof.
  apply (find_matches_mutual users nour_picky omar).
  - apply (bool_decide_unpack _). vm_compute. exact I.
  - apply list_elem_of_here.
  - apply list_elem_of_further, list_elem_of_here.
  - reflexivity.
  - reflexivity.
  - apply (bool_decide_unpack _). vm_compute. exact I.
  - apply (bool_decide_unpack _). vm_compute. exact I.
Defined.

Lemma filter_fmap_preserved {A} (g : A → A) (P : A → Prop)
    `{!∀ a, Decision (P a)} (l : list A) :
  (∀ a, P (g a) ↔ P a) → filter P (g <$> l) = g <$> filter P l.
Proof.
  intros HP. rewrite filter_fmap_key. f_equal. by apply list_filter_iff.
Qed.

Lemma fmap_fixed {A} (g : A → A) (l : list A) :
  (∀ a, a ∈ l → g a = a) → g <$> l = l.
Proof.
  induction l as [|a l IH]; intros Hg; [done|].
  rewrite fmap_cons, Hg by left. f_equal. apply IH.
  intros b Hb. apply Hg. by right.
Qed.

(** X6: the dislikes of the other users play no part: whatever lists of
    disliked ids the rows with another id than the requested one carry,
    the outcome of [find_matches] is the same.  A candidate who dislikes
    the requested user is still listed. *)
Theorem find_matches_ignores_others_dislikes (user_id : Z)
    (ids : row → list Z) (users_df : list row) :
  find_matches user_id (redislike user_id ids users_df)
  = find_matches user_id users_df.
Proof.
  unfold redislike.
  set (g := λ r, if bool_decide (userId r = user_id) then r
                 else set_disliked (ids r) r).
  assert (∀ r, userId (g r) = userId r) as Hgid
    by (intros r; unfold g; by case_bool_decide).
  assert (∀ r, userType (g r) = userType r) as Hgty
    by (intros r; unfold g; by case_bool_decide).
  assert (∀ cur r, match_of cur (g r) = match_of cur r) as Hgm
    by (intros cur r; unfold g; by case_bool_decide).
  unfold find_matches.
  rewrite (filter_fmap_preserved g (λ r, userId r = user_id))
    by (intros r; by rewrite Hgid).
  rewrite (fmap_fixed g (filter _ users_df)).
  2:{ intros r Hr. apply list_elem_of_filter in Hr as [Hr _].
      unfold g. by rewrite bool_decide_eq_true_2. }
  destruct (iloc0 _) as [cur|e]; [|done]. cbv zeta.
  rewrite (filter_fmap_preserved g (λ r, userType r = target_user_type cur))
    by (intros r; by rewrite Hgty).
  rewrite (filter_fmap_preserved g (λ r, userId r ∉ dislikedUserIds cur))
    by (intros r; by rewrite Hgid).
  rewrite !score_rows_spec.
  rewrite (filter_fmap_preserved g (λ r, userId r ≠ user_id))
    by (intros r; by rewrite Hgid).
  rewrite <- list_fmap_compose. do 3 f_equal.
  apply list_fmap_ext. intros i r _. apply Hgm.
Qed.

Lemma StronglySorted_of_lookup_lt {A} (R : relation A) (l : list A) :
  (∀ i j a b, (i < j)%nat → l !! i = Some a → l !! j = Some b → R a b) →
  StronglySorted R l.
Proof.
  induction l as [|x l IH]; intros Hl; constructor.
  - apply IH. intros i j a b Hij Hi Hj. apply (Hl (S i) (S j)); [lia|done|done].
  - apply Forall_forall. intros y Hy.
    apply list_elem_of_lookup in Hy as [j Hj].
    apply (Hl 0%nat (S j)); [lia|done|done].
Qed.

(** X7: descending order and stability pin the result down: a list that is
    in descending order of score and that, for every score, holds the
    tuples of the candidates with that score in the order of the
    collection is the list [find_matches] returns. *)
Theorem find_matches_determined (user_id : Z) (users_df : list row)
    (current_user : row) (out : list match_tuple) :
  current_user_of user_id users_df = Some current_user →
  (∀ i j a b, (i < j)%nat → out !! i = Some a → out !! j = Some b →
              tuple_score b ≤ tuple_score a) →
  (∀ s, filter (λ t, tuple_score t = s) out
        = match_of current_user <$>
            filter (λ r, calculate_compatibility current_user r = s)
              (candidates (target_user_type current_user) user_id
                 current_user users_df)) →
  find_matches user_id users_df = Ok out.
Proof.
  intros Hcur Hdesc Hstable. rewrite (find_matches_found _ _ _ Hcur). f_equal.
  symmetry. apply list_sort_reverse_unique.
  - by apply StronglySorted_of_lookup_lt.
  - intros s. by rewrite Hstable, filter_fmap_key.
Qed.

Lemma find_matches_determined_witness :
  find_matches 1 users
  = Ok [("Omar"%string, 2, 85); ("Laila"%string, 3, 40); ("Yasmin"%string, 7, 40)].
Proof.
  apply (find_matches_determined 1 users nour_picky).
  - reflexivity.
  - intros i j a b Hij Hi Hj.
    destruct i as [|[|[|i]]], j as [|[|[|j]]]; simpl in Hi, Hj;
      try lia; try discriminate;
      injection Hi as <-; injection Hj as <-; vm_compute; discriminate.
  - intros s.
    refine (eq_trans _
              (filter_fmap_key (match_of nour_picky) (λ t, tuple_score t = s)
                 (candidates (target_user_type nour_picky) 1 nour_picky users))).
    reflexivity.
Defined.

(** ** The query cell *)


(** X14: when the requested id occurs in the collection, the cell prints the
    header and then one line per listed match: as many lines as there
    are candidates, but never more than ten. *)
Theorem print_top_matches_line_count (id : Z) (users_df : list row) :
  id ∈ (userId <$> users_df) →
  ∃ current_user lines,
    current_user_of id users_df = Some current_user
    ∧ print_top_matches id users_df = Ok (header_line id :: lines)
    ∧ length lines
      = (length (candidates (target_user_type current_user) id
                   current_user users_df) `min` 10)%nat.
Proof.
  intros Hin. destruct (current_user_of_present _ _ Hin) as [cur Hcur].
  exists cur. eexists. split; [done|].
  unfold print_top_matches. rewrite (find_matches_found _ _ _ Hcur).
  split; [done|].
  rewrite length_fmap, length_take.
  rewrite (Permutation_length (list_sort_reverse_Permutation _ _)).
  rewrite length_fmap. lia.
Qed.

Lemma print_top_matches_line_count_witness :
  ∃ current_user lines,
    current_user_of 1 users = Some current_user
    ∧ print_top_matches 1 users = Ok (header_line 1 :: lines)
    ∧ length lines
      = (length (candidates (target_user_type current_user) 1
                   current_user users) `min` 10)%nat.
Proof.
  apply (print_top_matches_line_count 1 users).
  apply (bool_decide_unpack _). vm_compute. exact I.
Defined.



(** X16: for an id that is not in the collection the cell prints nothing:
    the [IndexError] of [find_matches] ends it before the header. *)
Theorem print_top_matches_absent_id (id : Z) (users_df : list row) :
  id ∉ (userId <$> users_df) →
  print_top_matches id users_df = Raise IndexError_out_of_bounds.
Proof.
  intros Hnin. unfold print_top_matches.
  by rewrite (find_matches_not_found _ _ (current_user_of_absent _ _ Hnin)).
Qed.

Lemma print_top_matches_absent_id_witness :
  print_top_matches 99 users = Raise IndexError_out_of_bounds.
Proof.
  apply (print_top_matches_absent_id 99 users).
  apply (bool_decide_unpack _). vm_compute. exact I.
Defined.
